(** * Artifact access layer over MLMD: [get_artifacts_by_ids], [update_artifacts]

    Shallow embedding of [tfx/orchestration/portable/mlmd/artifact_lib.py].

    - MLMD protos are records; an optional proto field that the code tests
      with [HasField] is an [option].
    - Python exceptions are values of [exn]; a computation yields a
      [result].
    - The read path is a pure function of what the store answers.
    - The write path mutates caller-owned objects, so it runs in a state
      monad over a [World]: the object heap (references to TFX artifacts)
      and the log of [put_artifacts] calls received by the store.  A raised
      exception keeps every mutation done before it, as in Python.
    - The store is the MLMD client, an external collaborator: what its
      batched read answers is a parameter, its batched write is recorded.
      Both calls are taken to return; an exception of the store itself
      would pass through these functions untouched.
    - [time.time] and [telemetry_utils.noop_telemetry] have no effect on
      results or control flow and are left out. *)

From stdpp Require Import strings pretty functions list gmap.

Local Open Scope Z_scope.
Local Open Scope string_scope.

(** ** Exceptions and results *)

Inductive exn : Type :=
  | ValueError (msg : string)
  | KeyError (key : Z).

Inductive result (A : Type) : Type :=
  | Ok (a : A)
  | Raise (e : exn).
Arguments Ok {A} a.
Arguments Raise {A} e.

Definition rbind {A B} (r : result A) (k : A → result B) : result B :=
  match r with
  | Ok a => k a
  | Raise e => Raise e
  end.

(** [[f(x) for x in xs]] and [for x in xs: f(x)]: left to right, the first
    exception ends the traversal. *)
Fixpoint rmap {A B} (f : A → result B) (xs : list A) : result (list B) :=
  match xs with
  | [] => Ok []
  | x :: xs' => rbind (f x) (λ y, rbind (rmap f xs') (λ ys, Ok (y :: ys)))
  end.

(** ** Data model *)

(** A property value of an MLMD record ([int_value] / [string_value]). *)
Inductive Value : Type :=
  | IntValue (n : Z)
  | StringValue (s : string).

(** [metadata_store_pb2.ArtifactType]: the fields the module reads. *)
Module ArtifactType.
Record t : Type := Build { id : Z; name : string }.
End ArtifactType.

(** [metadata_store_pb2.Artifact].  [id] is [None] while the record has never
    been persisted ([HasField('id')] is false). *)
Module MlmdArtifact.
Record t : Type := Build {
  id : option Z;
  type_id : Z;
  type : string;
  properties : list (string * Value);
  state : string
}.

Definition HasField_id (a : t) : bool := bool_decide (is_Some (id a)).

(** [a.type = s] *)
Definition set_type (s : string) (a : t) : t :=
  Build (id a) (type_id a) s (properties a) (state a).

(** [a.state = s] *)
Definition set_state (s : string) (a : t) : t :=
  Build (id a) (type_id a) (type a) (properties a) s.
End MlmdArtifact.

(** Modelled from the spec: [tfx.types.Artifact] is not part of the sources
    at hand.  A typed artifact wraps exactly one artifact record plus its
    resolved type definition; its state is the state field of the wrapped
    record, so setting it is visible in the record that is persisted. *)
Module Artifact.
Record t : Type := Build {
  mlmd_artifact : MlmdArtifact.t;
  artifact_type : ArtifactType.t
}.

Definition state (a : t) : string := MlmdArtifact.state (mlmd_artifact a).

(** [a.state = s] *)
Definition set_state (s : string) (a : t) : t :=
  Build (MlmdArtifact.set_state s (mlmd_artifact a)) (artifact_type a).
End Artifact.

(** Modelled from the spec: [artifact_utils.deserialize_artifact] is not part
    of the sources at hand.  It rehydrates a record into the typed artifact
    that wraps this record together with the given type definition. *)
Definition deserialize_artifact
    (artifact_type : ArtifactType.t) (artifact : MlmdArtifact.t) : Artifact.t :=
  Artifact.Build artifact artifact_type.

(** ** The store, read side *)

(** [metadata_handle.store]: the answer of the batched read is a parameter
    of the model. *)
Module MetadataStore.
Record t : Type := Build {
  get_artifacts_and_types_by_artifact_ids :
    list Z → list MlmdArtifact.t * list ArtifactType.t
}.
End MetadataStore.

Record Metadata : Type := { store : MetadataStore.t }.

(** ** Python helpers *)

(** [repr] of a list of ints, as an f-string prints it: [[1, 2, 3]]. *)
Fixpoint join (sep : string) (xs : list string) : string :=
  match xs with
  | [] => ""
  | [x] => x
  | x :: xs' => x ++ sep ++ join sep xs'
  end.

Definition repr_ids (ids : list Z) : string :=
  "[" ++ join ", " (pretty <$> ids) ++ "]".

(** [{a.id: a for a in artifact_types}]: a later definition with the same id
    replaces an earlier one. *)
Definition types_by_id (artifact_types : list ArtifactType.t)
    : gmap Z ArtifactType.t :=
  foldl (λ m a, <[ArtifactType.id a := a]> m) ∅ artifact_types.

(** [d[k]] *)
Definition getitem (d : gmap Z ArtifactType.t) (k : Z) : result ArtifactType.t :=
  match d !! k with
  | Some v => Ok v
  | None => Raise (KeyError k)
  end.

(** ** [get_artifacts_by_ids] *)

Definition not_found_message (artifact_ids : list Z) : string :=
  "Could not find all MLMD artifacts for ids: " ++ repr_ids artifact_ids.

Definition get_artifacts_by_ids
    (metadata_handle : Metadata) (artifact_ids : list Z)
    : result (list Artifact.t) :=
  let '(mlmd_artifacts, artifact_types) :=
    MetadataStore.get_artifacts_and_types_by_artifact_ids
      (store metadata_handle) artifact_ids in
  if negb (length artifact_ids =? length mlmd_artifacts)%nat then
    Raise (ValueError (not_found_message artifact_ids))
  else
    let artifact_types_by_id := types_by_id artifact_types in
    rbind
      (rmap (λ mlmd_artifact,
               rbind (getitem artifact_types_by_id
                        (MlmdArtifact.type_id mlmd_artifact))
                 (λ ty, Ok (MlmdArtifact.set_type (ArtifactType.name ty)
                              mlmd_artifact)))
            mlmd_artifacts)
      (λ mlmd_artifacts,
         rmap (λ mlmd_artifact,
                 rbind (getitem artifact_types_by_id
                          (MlmdArtifact.type_id mlmd_artifact))
                   (λ ty, Ok (deserialize_artifact ty mlmd_artifact)))
              mlmd_artifacts).

(** An in-memory store for concrete runs: one record per distinct requested
    identifier that it holds, and the type definitions it was given. *)
Definition memory_store
    (records : list MlmdArtifact.t) (types : list ArtifactType.t) : Metadata :=
  {| store := MetadataStore.Build (λ ids,
       (omap (λ i, list_find (λ r, MlmdArtifact.id r = Some i) records
                     ≫= λ p, Some p.2)
             (remove_dups ids),
        types)) |}.

Definition record_A : MlmdArtifact.t :=
  MlmdArtifact.Build (Some 1) 10 "" [] "LIVE".
Definition record_B : MlmdArtifact.t :=
  MlmdArtifact.Build (Some 2) 20 "" [("span", IntValue 3)] "LIVE".
Definition type_A : ArtifactType.t := ArtifactType.Build 10 "A".
Definition type_B : ArtifactType.t := ArtifactType.Build 20 "B".

Definition store_AB : Metadata :=
  memory_store [record_A; record_B] [type_A; type_B].

(** A store that lost the definition of type B. *)
Definition store_without_B : Metadata :=
  memory_store [record_A; record_B] [type_A].

(** ** The object heap and the store, write side *)

(** A reference to a caller-owned TFX artifact.  Every reference denotes an
    object, so the heap is a total function; two occurrences of one
    reference are the same object. *)
Abbreviation loc := positive.

Record World : Type := {
  heap : loc → Artifact.t;
  put_artifacts_calls : list (list MlmdArtifact.t)
}.

Definition M (A : Type) : Type := World → result A * World.

Definition mret {A} (a : A) : M A := λ w, (Ok a, w).

Definition mbind {A B} (m : M A) (k : A → M B) : M B :=
  λ w, match m w with
       | (Ok a, w') => k a w'
       | (Raise e, w') => (Raise e, w')
       end.

Definition raise {A} (e : exn) : M A := λ w, (Raise e, w).

Notation "'let*' x ':=' m 'in' k" := (mbind m (λ x, k))
  (at level 10, x name, m at level 100, k at level 200).
Notation "'run' m 'in' k" := (mbind m (λ _, k))
  (at level 10, m at level 100, k at level 200).

(** Reading the object behind a reference. *)
Definition deref (l : loc) : M Artifact.t := λ w, (Ok (heap w l), w).

(** [tfx_artifact.state = s] on the object behind [l]. *)
Definition setattr_state (l : loc) (s : string) : M unit :=
  λ w, (Ok tt,
        {| heap := <[l := Artifact.set_state s (heap w l)]> (heap w);
           put_artifacts_calls := put_artifacts_calls w |}).

(** [metadata_handle.store.put_artifacts(records)]: the store sees the
    records as they are when the call is made. *)
Definition put_artifacts (records : list loc) : M unit :=
  λ w, (Ok tt,
        {| heap := heap w;
           put_artifacts_calls :=
             put_artifacts_calls w
               ++ [(λ l, Artifact.mlmd_artifact (heap w l)) <$> records] |}).

(** ** [update_artifacts] *)

(** [typing_utils.ArtifactMultiMap]: a dict from key to a sequence of
    artifacts, in insertion order. *)
Definition ArtifactMultiMap : Type := list (string * list loc).

(** [itertools.chain.from_iterable(tfx_artifact_map.values())] *)
Definition chain_values (tfx_artifact_map : ArtifactMultiMap) : list loc :=
  concat (snd <$> tfx_artifact_map).

Definition missing_id_message : string :=
  "Artifact must have an MLMD ID in order to be updated.".

(** Truth value of an [Optional[str]]: [None] and [''] are false. *)
Definition truthy (new_artifact_state : option string) : bool :=
  match new_artifact_state with
  | Some s => negb (bool_decide (s = ""))
  | None => false
  end.

(** The [for] loop of [update_artifacts], started with the list collected
    so far.  [mlmd_artifacts_to_update] holds references to the records of
    the artifacts, named here by the artifact that owns the record. *)
Fixpoint update_loop (new_artifact_state : option string)
    (artifacts : list loc) (mlmd_artifacts_to_update : list loc)
    : M (list loc) :=
  match artifacts with
  | [] => mret mlmd_artifacts_to_update
  | tfx_artifact :: rest =>
      let* a := deref tfx_artifact in
      if negb (MlmdArtifact.HasField_id (Artifact.mlmd_artifact a)) then
        raise (ValueError missing_id_message)
      else
        run match new_artifact_state with
            | Some s =>
                if truthy new_artifact_state
                then setattr_state tfx_artifact s
                else mret tt
            | None => mret tt
            end in
        update_loop new_artifact_state rest
          (mlmd_artifacts_to_update ++ [tfx_artifact])
  end.

(** The store behind [metadata_handle] is the [put_artifacts_calls]
    component of the world. *)
Definition update_artifacts
    (tfx_artifact_map : ArtifactMultiMap) (new_artifact_state : option string)
    : M unit :=
  let* mlmd_artifacts_to_update :=
    update_loop new_artifact_state (chain_values tfx_artifact_map) [] in
  match mlmd_artifacts_to_update with
  | [] => mret tt
  | _ :: _ => put_artifacts mlmd_artifacts_to_update
  end.

(** Concrete objects for runs of the write path. *)
Definition record_new : MlmdArtifact.t :=
  MlmdArtifact.Build None 10 "A" [] "PENDING".

Definition heap_AB : loc → Artifact.t :=
  λ l, if decide (l = 1%positive) then
         deserialize_artifact type_A (MlmdArtifact.set_type "A" record_A)
       else if decide (l = 2%positive) then
         deserialize_artifact type_B (MlmdArtifact.set_type "B" record_B)
       else deserialize_artifact type_A record_new.

Definition world_AB : World := {| heap := heap_AB; put_artifacts_calls := [] |}.

Definition map_ok : ArtifactMultiMap :=
  [("examples", [1%positive; 2%positive]); ("model", [1%positive])].
Definition map_bad : ArtifactMultiMap :=
  [("examples", [1%positive]); ("model", [3%positive; 2%positive])].

(** ** Vocabulary of the statements *)

(** The store answered with exactly one record per distinct requested
    identifier. *)
Definition one_record_per_distinct_id
    (metadata_handle : Metadata) (artifact_ids : list Z) : Prop :=
  MlmdArtifact.id <$>
    (MetadataStore.get_artifacts_and_types_by_artifact_ids
       (store metadata_handle) artifact_ids).1
  ≡ₚ Some <$> remove_dups artifact_ids.

(** The store answered with a type definition for every record it
    returned. *)
Definition types_cover_records
    (metadata_handle : Metadata) (artifact_ids : list Z) : Prop :=
  let answer :=
    MetadataStore.get_artifacts_and_types_by_artifact_ids
      (store metadata_handle) artifact_ids in
  Forall (λ r, ∃ ty, ty ∈ answer.2
                     ∧ ArtifactType.id ty = MlmdArtifact.type_id r)
         answer.1.

(** Identifiers of the records wrapped by the returned artifacts. *)
Definition returned_ids (artifacts : list Artifact.t) : list (option Z) :=
  (λ a, MlmdArtifact.id (Artifact.mlmd_artifact a)) <$> artifacts.

(** The round trip of the read path: as many artifacts as identifiers, and
    the same identifiers as a multiset. *)
Definition round_trip
    (metadata_handle : Metadata) (artifact_ids : list Z) : Prop :=
  ∃ artifacts,
    get_artifacts_by_ids metadata_handle artifact_ids = Ok artifacts
    ∧ length artifacts = length artifact_ids
    ∧ returned_ids artifacts ≡ₚ Some <$> artifact_ids.

(** The object behind [l] carries a persisted identifier. *)
Definition persisted (hp : loc → Artifact.t) (l : loc) : Prop :=
  is_Some (MlmdArtifact.id (Artifact.mlmd_artifact (hp l))).

(** Two records agree on every field but [state]. *)
Definition same_but_state (a b : MlmdArtifact.t) : Prop :=
  MlmdArtifact.id a = MlmdArtifact.id b
  ∧ MlmdArtifact.type_id a = MlmdArtifact.type_id b
  ∧ MlmdArtifact.type a = MlmdArtifact.type b
  ∧ MlmdArtifact.properties a = MlmdArtifact.properties b.

(** The heap after the state of every object in [refs] was set, in turn. *)
Definition set_states (s : string) (refs : list loc) (hp : loc → Artifact.t)
    : loc → Artifact.t :=
  foldl (λ hp l, <[l := Artifact.set_state s (hp l)]> hp) hp refs.

(** What the loop has done to the heap once it went through [refs]. *)
Definition loop_effect (new_artifact_state : option string)
    (refs : list loc) (hp : loc → Artifact.t) : loc → Artifact.t :=
  match new_artifact_state with
  | Some s => if truthy new_artifact_state then set_states s refs hp else hp
  | None => hp
  end.

(** The records behind [refs], as the heap holds them. *)
Definition records_of (hp : loc → Artifact.t) (refs : list loc)
    : list MlmdArtifact.t :=
  (λ l, Artifact.mlmd_artifact (hp l)) <$> refs.

(** A returned artifact [t] is the join of the record [r] with the
    definition [d] finds for its type identifier. *)
Definition joined (d : gmap Z ArtifactType.t)
    (r : MlmdArtifact.t) (t : Artifact.t) : Prop :=
  ∃ ty, d !! MlmdArtifact.type_id r = Some ty
        ∧ t = deserialize_artifact ty
                (MlmdArtifact.set_type (ArtifactType.name ty) r).

(** The calls the store receives for the collected records: none for an
    empty collection, one batch otherwise. *)
Definition batches (records : list MlmdArtifact.t)
    : list (list MlmdArtifact.t) :=
  match records with
  | [] => []
  | _ :: _ => [records]
  end.

#[global] Instance persisted_dec hp l : Decision (persisted hp l).
Proof. unfold persisted. apply _. Defined.

(** Further stores for concrete runs: the definitions in the other order,
    and two definitions that share an identifier. *)
Definition store_BA : Metadata :=
  memory_store [record_A; record_B] [type_B; type_A].

Definition type_A_renamed : ArtifactType.t := ArtifactType.Build 10 "A_v2".

Definition store_two_names : Metadata :=
  memory_store [record_A] [type_A; type_B; type_A_renamed].

(** A multi-map that refers to object 2 only. *)
Definition map_one : ArtifactMultiMap := [("examples", [2%positive])].

(** On a concrete store, find the definition that covers a record among
    the candidates. *)
Ltac cover_with tys :=
  match tys with
  | ?ty :: ?rest =>
      first [ by (exists ty; split; [vm_compute; repeat constructor|reflexivity])
            | cover_with rest ]
  end.

Ltac covered :=
  unfold types_cover_records; vm_compute; repeat constructor;
  cover_with [type_A; type_B].

(** * Properties *)

(** ** The result monad *)

Section rmap.
Context {A B : Type} (f : A → result B).

Lemma rmap_Ok_Forall2 xs ys :
  rmap f xs = Ok ys ↔ Forall2 (λ x y, f x = Ok y) xs ys.
Proof.
  revert ys. induction xs as [|x xs IH]; intros ys; simpl.
  - split.
    + intros [= <-]. constructor.
    + by intros ->%Forall2_nil_inv_l.
  - destruct (f x) as [y|e] eqn:Hx; simpl.
    + destruct (rmap f xs) as [ys'|e] eqn:Hxs; simpl.
      * split.
        -- intros [= <-]. constructor; [done|]. by apply IH.
        -- intros (y' & ys'' & Hy & Hys & ->)%Forall2_cons_inv_l.
           apply IH in Hys. congruence.
      * split; [done|].
        intros (y' & ys'' & Hy & Hys & ->)%Forall2_cons_inv_l.
        apply IH in Hys. congruence.
    + split; [done|].
      intros (y' & ys'' & Hy & Hys & ->)%Forall2_cons_inv_l. congruence.
Qed.

Lemma rmap_Ok_length xs ys : rmap f xs = Ok ys → length ys = length xs.
Proof. intros H%rmap_Ok_Forall2. symmetry. by eapply Forall2_length. Qed.

(** The first failing element decides the exception. *)
Lemma rmap_first_Raise pre x post e :
  Forall (λ x', ∃ y, f x' = Ok y) pre →
  f x = Raise e →
  rmap f (pre ++ x :: post) = Raise e.
Proof.
  intros Hpre Hx. induction Hpre as [|x' pre [y Hy] _ IH]; simpl.
  - by rewrite Hx.
  - by rewrite Hy, IH.
Qed.

Lemma rmap_total xs :
  Forall (λ x, ∃ y, f x = Ok y) xs → ∃ ys, rmap f xs = Ok ys.
Proof.
  induction 1 as [|x xs [y Hy] _ [ys IH]]; simpl; [by eexists|].
  rewrite Hy, IH. by eexists.
Qed.
End rmap.

(** ** The type lookup *)

Lemma types_by_id_snoc tys ty :
  types_by_id (tys ++ [ty]) = <[ArtifactType.id ty := ty]> (types_by_id tys).
Proof. unfold types_by_id. by rewrite foldl_snoc. Qed.

Lemma types_by_id_Some tys k ty :
  types_by_id tys !! k = Some ty → ty ∈ tys ∧ ArtifactType.id ty = k.
Proof.
  induction tys as [|ty' tys IH] using rev_ind; [done|].
  rewrite types_by_id_snoc.
  destruct (decide (ArtifactType.id ty' = k)) as [<-|Hne].
  - rewrite lookup_insert_eq. intros [= <-]. split; [|done].
    apply elem_of_app. right. by apply list_elem_of_singleton.
  - rewrite lookup_insert_ne by done. intros [Hin Hid]%IH. split; [|done].
    apply elem_of_app. by left.
Qed.

Lemma types_by_id_is_Some tys k :
  is_Some (types_by_id tys !! k) ↔ ∃ ty, ty ∈ tys ∧ ArtifactType.id ty = k.
Proof.
  split.
  - intros [ty Hty]. exists ty. by apply types_by_id_Some.
  - intros (ty & Hin & <-).
    induction tys as [|ty' tys IH] using rev_ind; [by apply elem_of_nil in Hin|].
    rewrite types_by_id_snoc.
    destruct (decide (ArtifactType.id ty' = ArtifactType.id ty)) as [->|Hne].
    + rewrite lookup_insert_eq. by eexists.
    + rewrite lookup_insert_ne by done. apply IH.
      apply elem_of_app in Hin as [Hin|Hin%list_elem_of_singleton]; [done|].
      by subst.
Qed.

(** With pairwise distinct type identifiers the lookup finds the one
    definition that carries the identifier. *)
Lemma types_by_id_NoDup tys ty :
  NoDup (ArtifactType.id <$> tys) → ty ∈ tys →
  types_by_id tys !! ArtifactType.id ty = Some ty.
Proof.
  induction tys as [|ty' tys IH] using rev_ind.
  { intros _ Hin. by apply elem_of_nil in Hin. }
  rewrite fmap_app, types_by_id_snoc. simpl.
  intros (Hnd & Hfresh & _)%NoDup_app [Hin|Hin%list_elem_of_singleton]%elem_of_app.
  - rewrite lookup_insert_ne; [by apply IH|].
    intros Heq. apply (Hfresh (ArtifactType.id ty)).
    + apply list_elem_of_fmap. by exists ty.
    + rewrite Heq. by apply list_elem_of_singleton.
  - subst. by rewrite lookup_insert_eq.
Qed.

(** ** The read path *)

Section read_path.
Context (metadata_handle : Metadata) (artifact_ids : list Z).

Let answer :=
  MetadataStore.get_artifacts_and_types_by_artifact_ids
    (store metadata_handle) artifact_ids.

Lemma get_artifacts_by_ids_count_mismatch :
  length artifact_ids ≠ length answer.1 →
  get_artifacts_by_ids metadata_handle artifact_ids
  = Raise (ValueError (not_found_message artifact_ids)).
Proof.
  intros Hlen. unfold get_artifacts_by_ids. fold answer.
  destruct answer as [records types]. simpl in Hlen.
  by apply Nat.eqb_neq in Hlen as ->.
Qed.

Lemma get_artifacts_by_ids_Ok_inv artifacts :
  get_artifacts_by_ids metadata_handle artifact_ids = Ok artifacts →
  length artifact_ids = length answer.1
  ∧ Forall2 (joined (types_by_id answer.2)) answer.1 artifacts.
Proof.
  unfold get_artifacts_by_ids. fold answer.
  destruct answer as [records types]. simpl.
  destruct (length artifact_ids =? length records)%nat eqn:Hlen; [|done].
  apply Nat.eqb_eq in Hlen. simpl.
  destruct (rmap _ records) as [annotated|e] eqn:Hann; [|done]. simpl.
  intros Hdes. split; [done|].
  apply rmap_Ok_Forall2 in Hann, Hdes. clear Hlen.
  revert artifacts Hdes.
  induction Hann as [|r r' records annotated Hr _ IH]; intros artifacts Hdes.
  - apply Forall2_nil_inv_l in Hdes as ->. constructor.
  - apply Forall2_cons_inv_l in Hdes as (t & ts & Ht & Hts & ->).
    constructor; [|by apply IH].
    unfold getitem in Hr, Ht.
    destruct (types_by_id types !! MlmdArtifact.type_id r) as [ty|] eqn:Hty;
      [|done].
    simpl in Hr. injection Hr as <-. simpl in Ht. rewrite Hty in Ht.
    simpl in Ht. injection Ht as <-. by exists ty.
Qed.

Lemma get_artifacts_by_ids_Ok_intro :
  length artifact_ids = length answer.1 →
  Forall (λ r, is_Some (types_by_id answer.2 !! MlmdArtifact.type_id r))
         answer.1 →
  ∃ artifacts,
    get_artifacts_by_ids metadata_handle artifact_ids = Ok artifacts.
Proof.
  unfold get_artifacts_by_ids. fold answer.
  destruct answer as [records types]. simpl.
  intros Hlen Hres. apply Nat.eqb_eq in Hlen. rewrite Hlen. simpl.
  destruct (rmap_total
    (λ r, rbind (getitem (types_by_id types) (MlmdArtifact.type_id r))
            (λ ty, Ok (MlmdArtifact.set_type (ArtifactType.name ty) r)))
    records) as [annotated Hann].
  { eapply Forall_impl; [exact Hres|]. intros r [ty Hty].
    unfold getitem. rewrite Hty. by eexists. }
  rewrite Hann. simpl. apply rmap_total.
  apply rmap_Ok_Forall2 in Hann.
  clear -Hann Hres. induction Hann as [|r r' records annotated Hr _ IH].
  - constructor.
  - apply Forall_cons in Hres as [[ty Hty] Hres].
    constructor; [|by apply IH].
    unfold getitem in Hr |- *. rewrite Hty in Hr. simpl in Hr.
    injection Hr as <-. simpl. rewrite Hty. by eexists.
Qed.

Lemma get_artifacts_by_ids_KeyError pre r post :
  length artifact_ids = length answer.1 →
  answer.1 = (pre ++ r :: post)%list →
  Forall (λ r', is_Some (types_by_id answer.2 !! MlmdArtifact.type_id r'))
         pre →
  types_by_id answer.2 !! MlmdArtifact.type_id r = None →
  get_artifacts_by_ids metadata_handle artifact_ids
  = Raise (KeyError (MlmdArtifact.type_id r)).
Proof.
  unfold get_artifacts_by_ids. fold answer.
  destruct answer as [records types]. simpl.
  intros Hlen -> Hpre Hr. apply Nat.eqb_eq in Hlen. rewrite Hlen. simpl.
  erewrite rmap_first_Raise; [done| |].
  - eapply Forall_impl; [exact Hpre|]. intros r' [ty Hty].
    unfold getitem. rewrite Hty. by eexists.
  - unfold getitem. by rewrite Hr.
Qed.
End read_path.

Lemma remove_dups_NoDup (ids : list Z) : NoDup ids → remove_dups ids = ids.
Proof.
  induction 1 as [|i ids Hi _ IH]; simpl; [done|].
  destruct (decide_rel elem_of i ids) as [Hin|_]; [done|]. by rewrite IH.
Qed.

Lemma joined_returned_ids d records artifacts :
  Forall2 (joined d) records artifacts →
  returned_ids artifacts = MlmdArtifact.id <$> records.
Proof.
  induction 1 as [|r t records artifacts (ty & _ & ->) _ IH]; [done|].
  unfold returned_ids in *. rewrite !fmap_cons. by rewrite IH.
Qed.

Lemma types_cover_lookup h ids :
  types_cover_records h ids →
  Forall (λ r, is_Some
            (types_by_id
               (MetadataStore.get_artifacts_and_types_by_artifact_ids
                  (store h) ids).2
             !! MlmdArtifact.type_id r))
    (MetadataStore.get_artifacts_and_types_by_artifact_ids (store h) ids).1.
Proof.
  unfold types_cover_records. simpl. intros Hcover.
  eapply Forall_impl; [exact Hcover|]. intros r Hr.
  by apply types_by_id_is_Some.
Qed.

(** C1, as amended: for a sequence of pairwise distinct identifiers, when
    the store answers with exactly one record per requested identifier and
    with the type definition of every record, [get_artifacts_by_ids]
    returns as many artifacts as identifiers and the returned identifiers
    are the requested ones as a multiset. *)
Theorem C1_round_trip_distinct_ids h (ids : list Z) :
  NoDup ids →
  one_record_per_distinct_id h ids →
  types_cover_records h ids →
  round_trip h ids.
Proof.
  intros Hnd Hone Hcover. unfold one_record_per_distinct_id in Hone.
  rewrite (remove_dups_NoDup _ Hnd) in Hone.
  assert (length ids
          = length (MetadataStore.get_artifacts_and_types_by_artifact_ids
                      (store h) ids).1) as Hlen.
  { apply Permutation_length in Hone. by rewrite !length_fmap in Hone. }
  destruct (get_artifacts_by_ids_Ok_intro h ids Hlen
              (types_cover_lookup h ids Hcover)) as [artifacts Hget].
  exists artifacts. split; [done|].
  destruct (get_artifacts_by_ids_Ok_inv h ids artifacts Hget) as [_ Hjoin].
  split.
  - apply Forall2_length in Hjoin. congruence.
  - by rewrite (joined_returned_ids _ _ _ Hjoin).
Qed.

Lemma C1_round_trip_distinct_ids_witness :
  NoDup [2; 1]
  ∧ one_record_per_distinct_id store_AB [2; 1]
  ∧ types_cover_records store_AB [2; 1]
  ∧ round_trip store_AB [2; 1].
Proof.
  assert (NoDup [2; 1]) as Hnd.
  { apply NoDup_cons. split; [|apply NoDup_singleton].
    intros Hin%list_elem_of_singleton. discriminate Hin. }
  assert (one_record_per_distinct_id store_AB [2; 1]) as Hone
    by (unfold one_record_per_distinct_id; vm_compute; reflexivity).
  assert (types_cover_records store_AB [2; 1]) as Hcover by covered.
  exact (conj Hnd (conj Hone (conj Hcover
           (C1_round_trip_distinct_ids store_AB [2; 1] Hnd Hone Hcover)))).
Defined.

(** C1, as stated, fails: when an identifier is requested twice the store
    answers with one record for it, the counts differ and the call raises
    instead of returning. *)
Lemma C1_duplicate_ids_raise :
  ¬ (∀ h (ids : list Z),
       one_record_per_distinct_id h ids →
       types_cover_records h ids →
       round_trip h ids).
Proof.
  intros H. destruct (H store_AB [1; 1]) as (artifacts & Hget & _).
  - unfold one_record_per_distinct_id. vm_compute. reflexivity.
  - covered.
  - vm_compute in Hget. discriminate Hget.
Qed.

(** C2: when the store resolves fewer records than identifiers were
    requested, [get_artifacts_by_ids] raises the not-found [ValueError]
    whose message prints the whole requested list, and returns no
    artifacts at all. *)
Theorem C2_fewer_records_raise h (ids : list Z) :
  (length (MetadataStore.get_artifacts_and_types_by_artifact_ids
             (store h) ids).1 < length ids)%nat →
  get_artifacts_by_ids h ids
  = Raise (ValueError
             ("Could not find all MLMD artifacts for ids: " ++ repr_ids ids))
  ∧ ∀ partial, get_artifacts_by_ids h ids ≠ Ok partial.
Proof.
  intros Hlt.
  assert (get_artifacts_by_ids h ids
          = Raise (ValueError (not_found_message ids))) as Hraise.
  { apply get_artifacts_by_ids_count_mismatch. lia. }
  split; [exact Hraise|]. intros partial. by rewrite Hraise.
Qed.

Lemma C2_fewer_records_raise_witness :
  get_artifacts_by_ids store_AB [1; 2; 3]
  = Raise (ValueError "Could not find all MLMD artifacts for ids: [1, 2, 3]")
  ∧ ∀ partial, get_artifacts_by_ids store_AB [1; 2; 3] ≠ Ok partial.
Proof.
  apply (C2_fewer_records_raise store_AB [1; 2; 3]). vm_compute. lia.
Defined.

(** C4: every returned artifact wraps one record of the batch, with the
    record's identifier and type identifier untouched, and carries as
    resolved type name the name of a type definition of the batch whose
    identifier is the record's type identifier; that definition is also the
    one the artifact was built with.  When the definitions of the batch have
    pairwise distinct identifiers, it is the name of the only definition
    with that identifier.  Nothing restricts the number of types in the
    batch. *)
Theorem C4_type_join h (ids : list Z) artifacts :
  get_artifacts_by_ids h ids = Ok artifacts →
  Forall2
    (λ r t,
       MlmdArtifact.id (Artifact.mlmd_artifact t) = MlmdArtifact.id r
       ∧ MlmdArtifact.type_id (Artifact.mlmd_artifact t)
         = MlmdArtifact.type_id r
       ∧ (∃ ty,
            ty ∈ (MetadataStore.get_artifacts_and_types_by_artifact_ids
                    (store h) ids).2
            ∧ ArtifactType.id ty = MlmdArtifact.type_id r
            ∧ MlmdArtifact.type (Artifact.mlmd_artifact t)
              = ArtifactType.name ty
            ∧ Artifact.artifact_type t = ty)
       ∧ (NoDup (ArtifactType.id <$>
                   (MetadataStore.get_artifacts_and_types_by_artifact_ids
                      (store h) ids).2) →
          ∀ ty,
            ty ∈ (MetadataStore.get_artifacts_and_types_by_artifact_ids
                    (store h) ids).2 →
            ArtifactType.id ty = MlmdArtifact.type_id r →
            MlmdArtifact.type (Artifact.mlmd_artifact t)
            = ArtifactType.name ty))
    (MetadataStore.get_artifacts_and_types_by_artifact_ids (store h) ids).1
    artifacts.
Proof.
  intros [_ Hjoin]%get_artifacts_by_ids_Ok_inv.
  eapply Forall2_impl; [exact Hjoin|].
  intros r t (ty & Hty & ->). simpl.
  split; [done|]. split; [done|]. split.
  - exists ty. apply types_by_id_Some in Hty as [Hin Hid]. done.
  - intros Hnd ty' Hin' Hid'.
    apply (types_by_id_NoDup _ _ Hnd) in Hin'. rewrite Hid' in Hin'.
    congruence.
Qed.

Lemma C4_type_join_witness :
  ∃ artifacts,
    get_artifacts_by_ids store_AB [1; 2] = Ok artifacts
    ∧ (MlmdArtifact.type ∘ Artifact.mlmd_artifact) <$> artifacts = ["A"; "B"]
    ∧ Forall2
        (λ r t,
           MlmdArtifact.id (Artifact.mlmd_artifact t) = MlmdArtifact.id r
           ∧ MlmdArtifact.type_id (Artifact.mlmd_artifact t)
             = MlmdArtifact.type_id r
           ∧ (∃ ty,
                ty ∈ [type_A; type_B]
                ∧ ArtifactType.id ty = MlmdArtifact.type_id r
                ∧ MlmdArtifact.type (Artifact.mlmd_artifact t)
                  = ArtifactType.name ty
                ∧ Artifact.artifact_type t = ty)
           ∧ (NoDup (ArtifactType.id <$> [type_A; type_B]) →
              ∀ ty,
                ty ∈ [type_A; type_B] →
                ArtifactType.id ty = MlmdArtifact.type_id r →
                MlmdArtifact.type (Artifact.mlmd_artifact t)
                = ArtifactType.name ty))
        [record_A; record_B] artifacts.
Proof.
  eexists. split; [vm_compute; reflexivity|]. split; [reflexivity|].
  apply (C4_type_join store_AB [1; 2]). vm_compute. reflexivity.
Defined.

(** C8: when the store answers with a type definition for every record it
    returned, no type lookup fails: the call never raises [KeyError], and it
    returns whenever the counts agree.  When the counts agree and some
    record's type identifier has no definition in the answer, the
    [KeyError] of the first such record reaches the caller as it is; it is
    neither the not-found [ValueError] nor a result. *)
Theorem C8_type_lookup h (ids : list Z) :
  (types_cover_records h ids →
     (∀ k, get_artifacts_by_ids h ids ≠ Raise (KeyError k))
     ∧ (length ids
        = length (MetadataStore.get_artifacts_and_types_by_artifact_ids
                    (store h) ids).1 →
        ∃ artifacts, get_artifacts_by_ids h ids = Ok artifacts))
  ∧ (∀ pre r post,
       length ids
       = length (MetadataStore.get_artifacts_and_types_by_artifact_ids
                   (store h) ids).1 →
       (MetadataStore.get_artifacts_and_types_by_artifact_ids
          (store h) ids).1 = (pre ++ r :: post)%list →
       Forall (λ r', ∃ ty,
                 ty ∈ (MetadataStore.get_artifacts_and_types_by_artifact_ids
                         (store h) ids).2
                 ∧ ArtifactType.id ty = MlmdArtifact.type_id r') pre →
       (∀ ty,
          ty ∈ (MetadataStore.get_artifacts_and_types_by_artifact_ids
                  (store h) ids).2 →
          ArtifactType.id ty ≠ MlmdArtifact.type_id r) →
       get_artifacts_by_ids h ids = Raise (KeyError (MlmdArtifact.type_id r))).
Proof.
  split.
  - intros Hcover. apply types_cover_lookup in Hcover. split.
    + intros k Hraise.
      destruct (decide (length ids
        = length (MetadataStore.get_artifacts_and_types_by_artifact_ids
                    (store h) ids).1)) as [Hlen|Hlen].
      * destruct (get_artifacts_by_ids_Ok_intro h ids Hlen Hcover)
          as [artifacts Hget]. congruence.
      * rewrite (get_artifacts_by_ids_count_mismatch h ids Hlen) in Hraise.
        discriminate Hraise.
    + intros Hlen. by apply get_artifacts_by_ids_Ok_intro.
  - intros pre r post Hlen Hsplit Hpre Hr.
    apply (get_artifacts_by_ids_KeyError h ids pre r post Hlen Hsplit).
    + eapply Forall_impl; [exact Hpre|]. intros r' Hr'.
      by apply types_by_id_is_Some.
    + apply eq_None_not_Some. intros (ty & Hin & Hid)%types_by_id_is_Some.
      by apply (Hr ty).
Qed.

Lemma C8_type_lookup_witness :
  (types_cover_records store_AB [1; 2]
   ∧ ∃ artifacts, get_artifacts_by_ids store_AB [1; 2] = Ok artifacts)
  ∧ get_artifacts_by_ids store_without_B [1; 2] = Raise (KeyError 20).
Proof.
  assert (types_cover_records store_AB [1; 2]) as Hcover by covered.
  destruct (C8_type_lookup store_AB [1; 2]) as [Hcovered _].
  destruct (C8_type_lookup store_without_B [1; 2]) as [_ Hmissing].
  split.
  - split; [exact Hcover|].
    apply (proj2 (Hcovered Hcover)). reflexivity.
  - apply (Hmissing [record_A] record_B []).
    + reflexivity.
    + reflexivity.
    + repeat constructor. cover_with [type_A].
    + intros ty Hin. vm_compute in Hin.
      apply list_elem_of_singleton in Hin as ->. discriminate.
Defined.

(** ** The write path *)

(** *** Setting states on the heap *)

Lemma set_state_idemp s a :
  Artifact.set_state s (Artifact.set_state s a) = Artifact.set_state s a.
Proof. done. Qed.

Lemma set_states_cons s l refs hp :
  set_states s (l :: refs) hp
  = set_states s refs (<[l := Artifact.set_state s (hp l)]> hp).
Proof. done. Qed.

Lemma set_states_lookup s refs hp l :
  set_states s refs hp l
  = if decide (l ∈ refs) then Artifact.set_state s (hp l) else hp l.
Proof.
  revert hp. induction refs as [|x refs IH]; intros hp.
  - rewrite decide_False; [done|]. apply not_elem_of_nil.
  - rewrite set_states_cons, IH.
    destruct (decide (x = l)) as [->|Hne].
    + rewrite fn_lookup_insert, set_state_idemp.
      rewrite (decide_True (P := l ∈ l :: refs)) by apply list_elem_of_here.
      by destruct (decide (l ∈ refs)).
    + rewrite fn_lookup_insert_ne by done.
      destruct (decide (l ∈ refs)) as [Hin|Hout].
      * rewrite decide_True; [done|]. by apply list_elem_of_further.
      * rewrite decide_False; [done|].
        intros [?|?]%elem_of_cons; congruence.
Qed.

Lemma set_states_app s pre post hp :
  set_states s (pre ++ post) hp = set_states s post (set_states s pre hp).
Proof. unfold set_states. by rewrite foldl_app. Qed.

Lemma loop_effect_app ns pre post hp :
  loop_effect ns (pre ++ post) hp = loop_effect ns post (loop_effect ns pre hp).
Proof.
  unfold loop_effect. destruct ns as [s|]; [|done].
  destruct (truthy (Some s)); [apply set_states_app|done].
Qed.

Lemma loop_effect_nil ns hp : loop_effect ns [] hp = hp.
Proof.
  unfold loop_effect. destruct ns as [s|]; [|done].
  by destruct (truthy (Some s)).
Qed.

Lemma loop_effect_falsy ns refs hp :
  truthy ns = false → loop_effect ns refs hp = hp.
Proof. unfold loop_effect. destruct ns as [s|]; [|done]. by intros ->. Qed.

Lemma loop_effect_truthy s refs hp :
  truthy (Some s) = true → loop_effect (Some s) refs hp = set_states s refs hp.
Proof. unfold loop_effect. by intros ->. Qed.

Lemma loop_effect_outside ns refs hp l :
  l ∉ refs → loop_effect ns refs hp l = hp l.
Proof.
  intros Hout. unfold loop_effect. destruct ns as [s|]; [|done].
  destruct (truthy (Some s)); [|done].
  rewrite set_states_lookup. by rewrite decide_False.
Qed.

(** Whatever the loop did, an object differs from what it was at most by
    its state. *)
Lemma loop_effect_cases ns refs hp l :
  loop_effect ns refs hp l = hp l
  ∨ ∃ s, ns = Some s ∧ truthy ns = true ∧ l ∈ refs
         ∧ loop_effect ns refs hp l = Artifact.set_state s (hp l).
Proof.
  unfold loop_effect. destruct ns as [s|]; [|by left].
  destruct (truthy (Some s)) eqn:Ht; [|by left].
  rewrite set_states_lookup. destruct (decide (l ∈ refs)); [|by left].
  right. by exists s.
Qed.

Lemma loop_effect_persisted ns refs hp l :
  persisted (loop_effect ns refs hp) l ↔ persisted hp l.
Proof.
  unfold persisted.
  destruct (loop_effect_cases ns refs hp l) as [->|(s & _ & _ & _ & ->)]; done.
Qed.

(** *** The loop *)

Lemma persisted_HasField hp l :
  persisted hp l ↔
  MlmdArtifact.HasField_id (Artifact.mlmd_artifact (hp l)) = true.
Proof.
  unfold persisted, MlmdArtifact.HasField_id.
  by rewrite bool_decide_eq_true.
Qed.

(** One turn of the loop on an object that carries an identifier. *)
Lemma update_loop_step ns l rest acc hp calls :
  persisted hp l →
  update_loop ns (l :: rest) acc {| heap := hp; put_artifacts_calls := calls |}
  = update_loop ns rest (acc ++ [l])
      {| heap := loop_effect ns [l] hp; put_artifacts_calls := calls |}.
Proof.
  intros Hid%persisted_HasField. simpl. unfold mbind at 1, deref. simpl.
  rewrite Hid. simpl. unfold mbind at 1, loop_effect.
  destruct ns as [s|]; [|done].
  destruct (truthy (Some s)); done.
Qed.

(** The loop goes through a prefix of objects that all carry an
    identifier. *)
Lemma update_loop_prefix ns pre rest acc hp calls :
  Forall (persisted hp) pre →
  update_loop ns (pre ++ rest) acc
    {| heap := hp; put_artifacts_calls := calls |}
  = update_loop ns rest (acc ++ pre)
      {| heap := loop_effect ns pre hp; put_artifacts_calls := calls |}.
Proof.
  revert acc hp. induction pre as [|l pre IH]; intros acc hp Hpre.
  - by rewrite app_nil_r, loop_effect_nil.
  - apply Forall_cons in Hpre as [Hl Hpre].
    rewrite <-app_comm_cons.
    rewrite update_loop_step by done.
    rewrite IH.
    + rewrite <-app_assoc. simpl.
      by rewrite (loop_effect_app ns [l] pre).
    + eapply Forall_impl; [exact Hpre|]. intros l' Hl'.
      by apply loop_effect_persisted.
Qed.

(** The loop stops at the first object without an identifier. *)
Lemma update_loop_raise ns l rest acc hp calls :
  ¬ persisted hp l →
  update_loop ns (l :: rest) acc {| heap := hp; put_artifacts_calls := calls |}
  = (Raise (ValueError missing_id_message),
     {| heap := hp; put_artifacts_calls := calls |}).
Proof.
  intros Hid. simpl. unfold mbind, deref. simpl.
  destruct (MlmdArtifact.HasField_id (Artifact.mlmd_artifact (hp l))) eqn:Hf;
    [|done].
  by apply persisted_HasField in Hf.
Qed.

(** *** [update_artifacts] in closed form *)

Lemma first_unpersisted hp (refs : list loc) :
  ¬ Forall (persisted hp) refs →
  ∃ pre l post,
    refs = (pre ++ l :: post)%list
    ∧ Forall (persisted hp) pre ∧ ¬ persisted hp l.
Proof.
  induction refs as [|x refs IH]; intros Hnot.
  - destruct Hnot. constructor.
  - destruct (decide (persisted hp x)) as [Hx|Hx].
    + destruct IH as (pre & l & post & -> & Hpre & Hl).
      { intros Hall. apply Hnot. by constructor. }
      exists (x :: pre), l, post. split; [done|]. split; [|done].
      by constructor.
    + by exists [], x, refs.
Qed.

Lemma update_artifacts_persisted m ns hp calls :
  Forall (persisted hp) (chain_values m) →
  update_artifacts m ns {| heap := hp; put_artifacts_calls := calls |}
  = (Ok tt,
     {| heap := loop_effect ns (chain_values m) hp;
        put_artifacts_calls :=
          calls ++ batches (records_of (loop_effect ns (chain_values m) hp)
                              (chain_values m)) |}).
Proof.
  intros Hall. unfold update_artifacts, mbind.
  rewrite <-(app_nil_r (chain_values m)) at 1.
  rewrite update_loop_prefix by done. simpl.
  destruct (chain_values m) as [|l refs]; simpl.
  - by rewrite app_nil_r.
  - done.
Qed.

Lemma update_artifacts_unpersisted m ns hp calls pre l post :
  chain_values m = (pre ++ l :: post)%list →
  Forall (persisted hp) pre →
  ¬ persisted hp l →
  update_artifacts m ns {| heap := hp; put_artifacts_calls := calls |}
  = (Raise (ValueError missing_id_message),
     {| heap := loop_effect ns pre hp; put_artifacts_calls := calls |}).
Proof.
  intros Hsplit Hpre Hl. unfold update_artifacts, mbind. rewrite Hsplit.
  rewrite update_loop_prefix by done.
  rewrite update_loop_raise; [done|].
  by rewrite loop_effect_persisted.
Qed.

(** The call either persists the whole collection or stops at the first
    object without an identifier. *)
Lemma update_artifacts_cases m ns hp calls :
  (Forall (persisted hp) (chain_values m)
   ∧ update_artifacts m ns {| heap := hp; put_artifacts_calls := calls |}
     = (Ok tt,
        {| heap := loop_effect ns (chain_values m) hp;
           put_artifacts_calls :=
             calls ++ batches (records_of
                                 (loop_effect ns (chain_values m) hp)
                                 (chain_values m)) |}))
  ∨ (∃ pre l post,
       chain_values m = (pre ++ l :: post)%list
       ∧ Forall (persisted hp) pre
       ∧ ¬ persisted hp l
       ∧ update_artifacts m ns {| heap := hp; put_artifacts_calls := calls |}
         = (Raise (ValueError missing_id_message),
            {| heap := loop_effect ns pre hp; put_artifacts_calls := calls |})).
Proof.
  destruct (decide (Forall (persisted hp) (chain_values m))) as [Hall|Hnot].
  - left. split; [done|]. by apply update_artifacts_persisted.
  - right. destruct (first_unpersisted _ _ Hnot) as (pre & l & post & H & ? & ?).
    exists pre, l, post. repeat split; try done.
    by apply (update_artifacts_unpersisted m ns hp calls pre l post).
Qed.

Lemma truthy_Some s : truthy (Some s) = true ↔ s ≠ "".
Proof.
  unfold truthy. rewrite negb_true_iff, bool_decide_eq_false. done.
Qed.

Lemma records_of_length hp (refs : list loc) :
  length (records_of hp refs) = length refs.
Proof. unfold records_of. apply length_fmap. Qed.

Lemma batches_concat records : concat (batches records) = records.
Proof. destruct records; simpl; [done|]. by rewrite app_nil_r. Qed.

Lemma batches_Forall (P : list MlmdArtifact.t → Prop) records :
  P records → Forall P (batches records).
Proof. intros HP. destruct records; repeat constructor. done. Qed.

Lemma batches_length records : (length (batches records) ≤ 1)%nat.
Proof. destruct records; simpl; lia. Qed.

(** C3: when the multi-map holds an artifact without a persisted
    identifier, [update_artifacts] raises the missing-identifier
    [ValueError] and the store has received no [put_artifacts] call. *)
Theorem C3_unpersisted_artifact_raises m ns w l :
  l ∈ chain_values m →
  MlmdArtifact.id (Artifact.mlmd_artifact (heap w l)) = None →
  (update_artifacts m ns w).1
  = Raise (ValueError "Artifact must have an MLMD ID in order to be updated.")
  ∧ put_artifacts_calls (update_artifacts m ns w).2 = put_artifacts_calls w.
Proof.
  intros Hin Hnone. destruct w as [hp calls]. simpl in *.
  destruct (update_artifacts_cases m ns hp calls)
    as [[Hall _]|(pre & l0 & post & _ & _ & _ & ->)]; [|done].
  rewrite Forall_forall in Hall. specialize (Hall l Hin).
  unfold persisted in Hall. rewrite Hnone in Hall. by destruct Hall.
Qed.

(** C5: with a non-empty new state and a multi-map whose K artifacts all
    carry a persisted identifier, [update_artifacts] returns, every one of
    the K artifacts then has the new state, and what the store received
    during the call is exactly the K underlying records, never split over
    several calls: one batch holding them when K is positive. *)
Theorem C5_state_overwrite m s w :
  s ≠ "" →
  Forall (persisted (heap w)) (chain_values m) →
  (update_artifacts m (Some s) w).1 = Ok tt
  ∧ Forall (λ l, Artifact.state (heap (update_artifacts m (Some s) w).2 l) = s)
           (chain_values m)
  ∧ ∃ calls,
      put_artifacts_calls (update_artifacts m (Some s) w).2
      = (put_artifacts_calls w ++ calls)%list
      ∧ concat calls
        = records_of (heap (update_artifacts m (Some s) w).2) (chain_values m)
      ∧ length (concat calls) = length (chain_values m)
      ∧ (length calls ≤ 1)%nat
      ∧ (chain_values m ≠ [] →
         calls = [records_of (heap (update_artifacts m (Some s) w).2)
                    (chain_values m)]).
Proof.
  intros Hs%truthy_Some Hall. destruct w as [hp calls]. simpl in Hall.
  rewrite (update_artifacts_persisted m (Some s) hp calls Hall).
  cbn [fst snd heap put_artifacts_calls].
  split; [done|]. split.
  - apply Forall_forall. intros l Hin.
    rewrite loop_effect_truthy by done. rewrite set_states_lookup.
    by rewrite decide_True.
  - eexists. split; [done|]. rewrite batches_concat.
    split; [done|]. split; [apply records_of_length|].
    split; [apply batches_length|].
    intros Hne. destruct (chain_values m); done.
Qed.

(** C7: when the multi-map is empty, or all its values are empty, the call
    returns without an exception and leaves the heap and the store as they
    were: no [put_artifacts] call. *)
Theorem C7_empty_batch m ns w :
  chain_values m = [] →
  update_artifacts m ns w = (Ok tt, w).
Proof.
  intros Hempty. unfold update_artifacts, mbind. by rewrite Hempty.
Qed.

(** C9: with the empty string as new state and a multi-map whose artifacts
    all carry a persisted identifier, the call behaves as without a new
    state: it returns, no object of the heap is modified, and the store
    receives the records as the caller gave them, in one batch when there
    is any. *)
Theorem C9_empty_state_is_no_state m w :
  Forall (persisted (heap w)) (chain_values m) →
  update_artifacts m (Some "") w = update_artifacts m None w
  ∧ (update_artifacts m (Some "") w).1 = Ok tt
  ∧ heap (update_artifacts m (Some "") w).2 = heap w
  ∧ ∃ calls,
      put_artifacts_calls (update_artifacts m (Some "") w).2
      = (put_artifacts_calls w ++ calls)%list
      ∧ concat calls = records_of (heap w) (chain_values m)
      ∧ (length calls ≤ 1)%nat
      ∧ (chain_values m ≠ [] →
         calls = [records_of (heap w) (chain_values m)]).
Proof.
  intros Hall. destruct w as [hp calls]. simpl in Hall.
  rewrite (update_artifacts_persisted m (Some "") hp calls Hall).
  rewrite (update_artifacts_persisted m None hp calls Hall).
  cbn [fst snd heap put_artifacts_calls].
  rewrite (loop_effect_falsy (Some "")), (loop_effect_falsy None) by done.
  split; [done|]. split; [done|]. split; [done|].
  eexists. split; [done|]. rewrite batches_concat.
  split; [done|]. split; [apply batches_length|].
  intros Hne. destruct (chain_values m); done.
Qed.

Lemma loop_effect_frame ns refs hp l :
  Artifact.artifact_type (loop_effect ns refs hp l)
  = Artifact.artifact_type (hp l)
  ∧ same_but_state (Artifact.mlmd_artifact (loop_effect ns refs hp l))
                   (Artifact.mlmd_artifact (hp l))
  ∧ (truthy ns = false → loop_effect ns refs hp l = hp l).
Proof.
  destruct (loop_effect_cases ns refs hp l) as [->|(s & -> & Ht & _ & ->)].
  - done.
  - split; [done|]. split; [done|]. intros Hf. congruence.
Qed.

(** C6, as amended: when [update_artifacts] raises, it does so for the
    first artifact of the flattened sequence that has no persisted
    identifier; every object that does not occur before that artifact is
    exactly as it was, and with no new state or the empty string nothing
    is modified at all.  The artifacts that occur before it have been
    given a supplied non-empty new state, because each artifact is checked
    and mutated in the same turn of the loop.  The store received no
    call. *)
Theorem C6_state_kept_from_first_unpersisted m ns w e :
  (update_artifacts m ns w).1 = Raise e →
  ∃ pre l0 post,
    chain_values m = (pre ++ l0 :: post)%list
    ∧ Forall (persisted (heap w)) pre
    ∧ MlmdArtifact.id (Artifact.mlmd_artifact (heap w l0)) = None
    ∧ e = ValueError missing_id_message
    ∧ (∀ l, l ∉ pre → heap (update_artifacts m ns w).2 l = heap w l)
    ∧ (truthy ns = false → ∀ l, heap (update_artifacts m ns w).2 l = heap w l)
    ∧ (∀ s l, ns = Some s → s ≠ "" → l ∈ pre →
         heap (update_artifacts m ns w).2 l = Artifact.set_state s (heap w l))
    ∧ put_artifacts_calls (update_artifacts m ns w).2 = put_artifacts_calls w.
Proof.
  destruct w as [hp calls]. cbn [heap put_artifacts_calls].
  destruct (update_artifacts_cases m ns hp calls)
    as [[_ ->]|(pre & l0 & post & Hsplit & Hpre & Hl0 & ->)]; [done|].
  cbn [fst snd heap put_artifacts_calls]. intros [= <-].
  exists pre, l0, post. split; [done|]. split; [done|]. split.
  { unfold persisted in Hl0. by apply eq_None_not_Some. }
  split; [done|]. split; [|split; [|split; [|done]]].
  - intros l Hout. by apply loop_effect_outside.
  - intros Hf l. by rewrite loop_effect_falsy.
  - intros s l -> Hs%truthy_Some Hin.
    rewrite loop_effect_truthy by done. rewrite set_states_lookup.
    by rewrite decide_True.
Qed.

(** C6, as stated, fails: an artifact that precedes the identifier-less one
    has its state overwritten before the exception is raised. *)
Lemma C6_state_modified_before_raise :
  ¬ (∀ m ns w e,
       (update_artifacts m ns w).1 = Raise e →
       ∀ l, Artifact.state (heap (update_artifacts m ns w).2 l)
            = Artifact.state (heap w l)).
Proof.
  intros H.
  specialize (H map_bad (Some "PUBLISHED") world_AB
                (ValueError missing_id_message) eq_refl 1%positive).
  vm_compute in H. discriminate H.
Qed.

(** C10: whatever the outcome of the call, every object of the heap keeps
    its type definition and every field of its record but [state], and
    with no new state or the empty string it is not modified at all; every
    record the store receives is the record of the corresponding artifact
    as the caller gave it, up to [state], and is that very record when no
    non-empty new state was supplied. *)
Theorem C10_only_state_may_change m ns w :
  (∀ l,
     Artifact.artifact_type (heap (update_artifacts m ns w).2 l)
     = Artifact.artifact_type (heap w l)
     ∧ same_but_state
         (Artifact.mlmd_artifact (heap (update_artifacts m ns w).2 l))
         (Artifact.mlmd_artifact (heap w l))
     ∧ (truthy ns = false → heap (update_artifacts m ns w).2 l = heap w l))
  ∧ ∃ calls,
      put_artifacts_calls (update_artifacts m ns w).2
      = (put_artifacts_calls w ++ calls)%list
      ∧ Forall
          (λ batch,
             Forall2
               (λ l r,
                  same_but_state r (Artifact.mlmd_artifact (heap w l))
                  ∧ (truthy ns = false →
                     r = Artifact.mlmd_artifact (heap w l))
                  ∧ (∀ s, ns = Some s → s ≠ "" →
                     r = MlmdArtifact.set_state s
                           (Artifact.mlmd_artifact (heap w l))))
               (chain_values m) batch)
          calls.
Proof.
  destruct w as [hp calls]. cbn [heap put_artifacts_calls].
  destruct (update_artifacts_cases m ns hp calls)
    as [[_ ->]|(pre & l0 & post & _ & _ & _ & ->)];
    cbn [fst snd heap put_artifacts_calls].
  - split; [intros l; apply loop_effect_frame|].
    eexists. split; [done|].
    apply batches_Forall. unfold records_of.
    apply Forall2_fmap_r, Forall_Forall2_diag, Forall_forall.
    intros l Hin. destruct (loop_effect_frame ns (chain_values m) hp l)
      as (_ & Hsame & Hfalsy).
    split; [done|]. split; [intros Hf; by rewrite Hfalsy|].
    intros s -> Hs%truthy_Some.
    rewrite loop_effect_truthy by done. rewrite set_states_lookup.
    by rewrite decide_True.
  - split; [intros l; apply loop_effect_frame|].
    exists []. by rewrite app_nil_r.
Qed.

(** *** Concrete runs *)

Lemma C3_unpersisted_artifact_raises_witness :
  (update_artifacts map_bad (Some "PUBLISHED") world_AB).1
  = Raise (ValueError "Artifact must have an MLMD ID in order to be updated.")
  ∧ put_artifacts_calls
      (update_artifacts map_bad (Some "PUBLISHED") world_AB).2
    = put_artifacts_calls world_AB.
Proof.
  apply (C3_unpersisted_artifact_raises
           map_bad (Some "PUBLISHED") world_AB 3%positive).
  - vm_compute. apply list_elem_of_further, list_elem_of_here.
  - reflexivity.
Defined.

Lemma map_ok_persisted : Forall (persisted (heap world_AB)) (chain_values map_ok).
Proof. vm_compute. repeat constructor; by eexists. Defined.

Lemma C5_state_overwrite_witness :
  (update_artifacts map_ok (Some "PUBLISHED") world_AB).1 = Ok tt
  ∧ Forall
      (λ l, Artifact.state
              (heap (update_artifacts map_ok (Some "PUBLISHED") world_AB).2 l)
            = "PUBLISHED")
      [1; 2; 1]%positive
  ∧ ∃ calls,
      put_artifacts_calls
        (update_artifacts map_ok (Some "PUBLISHED") world_AB).2
      = ([] ++ calls)%list
      ∧ concat calls
        = records_of
            (heap (update_artifacts map_ok (Some "PUBLISHED") world_AB).2)
            [1; 2; 1]%positive
      ∧ length (concat calls) = 3%nat
      ∧ (length calls ≤ 1)%nat
      ∧ (chain_values map_ok ≠ [] →
         calls
         = [records_of
              (heap (update_artifacts map_ok (Some "PUBLISHED") world_AB).2)
              [1; 2; 1]%positive]).
Proof.
  apply (C5_state_overwrite map_ok "PUBLISHED" world_AB).
  - discriminate.
  - exact map_ok_persisted.
Defined.

Lemma C6_state_kept_from_first_unpersisted_witness :
  ∃ pre l0 post,
    chain_values map_bad = (pre ++ l0 :: post)%list
    ∧ Forall (persisted (heap world_AB)) pre
    ∧ MlmdArtifact.id (Artifact.mlmd_artifact (heap world_AB l0)) = None
    ∧ ValueError missing_id_message = ValueError missing_id_message
    ∧ (∀ l, l ∉ pre →
         heap (update_artifacts map_bad (Some "PUBLISHED") world_AB).2 l
         = heap world_AB l)
    ∧ (truthy (Some "PUBLISHED") = false →
       ∀ l, heap (update_artifacts map_bad (Some "PUBLISHED") world_AB).2 l
            = heap world_AB l)
    ∧ (∀ s l, Some "PUBLISHED" = Some s → s ≠ "" → l ∈ pre →
         heap (update_artifacts map_bad (Some "PUBLISHED") world_AB).2 l
         = Artifact.set_state s (heap world_AB l))
    ∧ put_artifacts_calls
        (update_artifacts map_bad (Some "PUBLISHED") world_AB).2
      = put_artifacts_calls world_AB.
Proof.
  apply (C6_state_kept_from_first_unpersisted
           map_bad (Some "PUBLISHED") world_AB (ValueError missing_id_message)).
  reflexivity.
Defined.

Lemma C7_empty_batch_witness :
  update_artifacts [] (Some "PUBLISHED") world_AB = (Ok tt, world_AB)
  ∧ update_artifacts [("examples", []); ("model", [])] None world_AB
    = (Ok tt, world_AB).
Proof.
  split.
  - apply (C7_empty_batch [] (Some "PUBLISHED") world_AB). reflexivity.
  - apply (C7_empty_batch [("examples", []); ("model", [])] None world_AB).
    reflexivity.
Defined.

Lemma C9_empty_state_is_no_state_witness :
  update_artifacts map_ok (Some "") world_AB = update_artifacts map_ok None world_AB
  ∧ (update_artifacts map_ok (Some "") world_AB).1 = Ok tt
  ∧ heap (update_artifacts map_ok (Some "") world_AB).2 = heap world_AB
  ∧ ∃ calls,
      put_artifacts_calls (update_artifacts map_ok (Some "") world_AB).2
      = ([] ++ calls)%list
      ∧ concat calls = records_of (heap world_AB) [1; 2; 1]%positive
      ∧ (length calls ≤ 1)%nat
      ∧ (chain_values map_ok ≠ [] →
         calls = [records_of (heap world_AB) [1; 2; 1]%positive]).
Proof.
  apply (C9_empty_state_is_no_state map_ok world_AB).
  exact map_ok_persisted.
Defined.

Lemma C10_only_state_may_change_witness :
  (∀ l,
     Artifact.artifact_type
       (heap (update_artifacts map_ok (Some "PUBLISHED") world_AB).2 l)
     = Artifact.artifact_type (heap world_AB l)
     ∧ same_but_state
         (Artifact.mlmd_artifact
            (heap (update_artifacts map_ok (Some "PUBLISHED") world_AB).2 l))
         (Artifact.mlmd_artifact (heap world_AB l))
     ∧ (truthy (Some "PUBLISHED") = false →
        heap (update_artifacts map_ok (Some "PUBLISHED") world_AB).2 l
        = heap world_AB l))
  ∧ ∃ calls,
      put_artifacts_calls
        (update_artifacts map_ok (Some "PUBLISHED") world_AB).2
      = (put_artifacts_calls world_AB ++ calls)%list
      ∧ Forall
          (λ batch,
             Forall2
               (λ l r,
                  same_but_state r (Artifact.mlmd_artifact (heap world_AB l))
                  ∧ (truthy (Some "PUBLISHED") = false →
                     r = Artifact.mlmd_artifact (heap world_AB l))
                  ∧ (∀ s, Some "PUBLISHED" = Some s → s ≠ "" →
                     r = MlmdArtifact.set_state s
                           (Artifact.mlmd_artifact (heap world_AB l))))
               (chain_values map_ok) batch)
          calls.
Proof.
  exact (C10_only_state_may_change map_ok (Some "PUBLISHED") world_AB).
Defined.

(** * Further properties of the two operations *)

(** ** Outcomes of [get_artifacts_by_ids] *)

Lemma Forall_first_failure {A} (P : A → Prop) `{!∀ x, Decision (P x)}
    (xs : list A) :
  ¬ Forall P xs →
  ∃ pre x post, xs = (pre ++ x :: post)%list ∧ Forall P pre ∧ ¬ P x.
Proof.
  induction xs as [|x xs IH]; intros Hnot.
  - destruct Hnot. constructor.
  - destruct (decide (P x)) as [Hx|Hx].
    + destruct IH as (pre & y & post & -> & Hpre & Hy).
      { intros Hall. apply Hnot. by constructor. }
      exists (x :: pre), y, post. split; [done|]. split; [|done].
      by constructor.
    + by exists [], x, xs.
Qed.

(** The call ends in one of three ways, decided by the counts and then by
    the first record whose type has no definition. *)
Lemma get_artifacts_by_ids_cases h (ids : list Z) :
  (length ids
   ≠ length (MetadataStore.get_artifacts_and_types_by_artifact_ids
               (store h) ids).1
   ∧ get_artifacts_by_ids h ids = Raise (ValueError (not_found_message ids)))
  ∨ (length ids
     = length (MetadataStore.get_artifacts_and_types_by_artifact_ids
                 (store h) ids).1
     ∧ ∃ artifacts, get_artifacts_by_ids h ids = Ok artifacts)
  ∨ (length ids
     = length (MetadataStore.get_artifacts_and_types_by_artifact_ids
                 (store h) ids).1
     ∧ ∃ pre r post,
         (MetadataStore.get_artifacts_and_types_by_artifact_ids
            (store h) ids).1 = (pre ++ r :: post)%list
         ∧ types_by_id
             (MetadataStore.get_artifacts_and_types_by_artifact_ids
                (store h) ids).2 !! MlmdArtifact.type_id r = None
         ∧ get_artifacts_by_ids h ids
           = Raise (KeyError (MlmdArtifact.type_id r))).
Proof.
  destruct (decide (length ids
    = length (MetadataStore.get_artifacts_and_types_by_artifact_ids
                (store h) ids).1)) as [Hlen|Hlen].
  - right.
    destruct (decide (Forall
      (λ r, is_Some
              (types_by_id
                 (MetadataStore.get_artifacts_and_types_by_artifact_ids
                    (store h) ids).2 !! MlmdArtifact.type_id r))
      (MetadataStore.get_artifacts_and_types_by_artifact_ids
         (store h) ids).1)) as [Hall|Hnot].
    + left. split; [done|]. by apply get_artifacts_by_ids_Ok_intro.
    + right. split; [done|].
      destruct (Forall_first_failure _ _ Hnot)
        as (pre & r & post & Hsplit & Hpre & Hr).
      exists pre, r, post. apply eq_None_not_Some in Hr.
      split; [done|]. split; [done|].
      by apply (get_artifacts_by_ids_KeyError h ids pre r post).
  - left. split; [done|]. by apply get_artifacts_by_ids_count_mismatch.
Qed.

(** X1: the not-found [ValueError] is raised exactly when the number of
    returned records differs from the number of requested identifiers, be
    it fewer or more. *)
Theorem X1_not_found_iff_counts_differ h (ids : list Z) :
  get_artifacts_by_ids h ids = Raise (ValueError (not_found_message ids))
  ↔ length ids
    ≠ length (MetadataStore.get_artifacts_and_types_by_artifact_ids
                (store h) ids).1.
Proof.
  split.
  - intros Hraise Hlen.
    destruct (get_artifacts_by_ids_cases h ids)
      as [[Hne _]|[[_ [artifacts Hget]]|[_ (pre & r & post & _ & _ & Hget)]]];
      [done|congruence|congruence].
  - apply get_artifacts_by_ids_count_mismatch.
Qed.



(** X3: a return is always fully resolved: as many artifacts as requested
    identifiers, each the record the store returned at the same position
    with nothing changed but its [type], which is the name of the type
    definition the artifact was built with. *)
Theorem X3_returned_in_store_order h (ids : list Z) artifacts :
  get_artifacts_by_ids h ids = Ok artifacts →
  length artifacts = length ids
  ∧ Forall2
      (λ r t,
         Artifact.mlmd_artifact t
         = MlmdArtifact.set_type
             (ArtifactType.name (Artifact.artifact_type t)) r)
      (MetadataStore.get_artifacts_and_types_by_artifact_ids (store h) ids).1
      artifacts.
Proof.
  intros [Hlen Hjoin]%get_artifacts_by_ids_Ok_inv. split.
  - apply Forall2_length in Hjoin. congruence.
  - eapply Forall2_impl; [exact Hjoin|].
    by intros r t (ty & _ & ->).
Qed.

Lemma X3_returned_in_store_order_witness :
  ∃ artifacts,
    get_artifacts_by_ids store_AB [2; 1] = Ok artifacts
    ∧ length artifacts = 2%nat
    ∧ Forall2
        (λ r t,
           Artifact.mlmd_artifact t
           = MlmdArtifact.set_type
               (ArtifactType.name (Artifact.artifact_type t)) r)
        [record_B; record_A] artifacts.
Proof.
  eexists. split; [vm_compute; reflexivity|].
  apply (X3_returned_in_store_order store_AB [2; 1]). vm_compute. reflexivity.
Defined.

(** ** The per-batch type lookup *)

Lemma types_by_id_last tys k ty :
  types_by_id tys !! k = Some ty →
  ∃ before after,
    tys = (before ++ ty :: after)%list
    ∧ Forall (λ ty', ArtifactType.id ty' ≠ k) after.
Proof.
  induction tys as [|ty' tys IH] using rev_ind; [done|].
  rewrite types_by_id_snoc.
  destruct (decide (ArtifactType.id ty' = k)) as [<-|Hne].
  - rewrite lookup_insert_eq. intros [= <-]. by exists tys, [].
  - rewrite lookup_insert_ne by done.
    intros (before & after & -> & Hafter)%IH.
    exists before, (after ++ [ty'])%list. split.
    + by rewrite <-app_assoc.
    + apply Forall_app. split; [done|]. by constructor.
Qed.

Lemma types_by_id_perm tys tys' :
  tys ≡ₚ tys' →
  NoDup (ArtifactType.id <$> tys) →
  types_by_id tys = types_by_id tys'.
Proof.
  intros Hperm Hnd.
  assert (NoDup (ArtifactType.id <$> tys')) as Hnd' by (by rewrite <-Hperm).
  apply map_eq. intros k.
  destruct (types_by_id tys !! k) as [ty|] eqn:Hk.
  - apply types_by_id_Some in Hk as [Hin <-]. symmetry.
    apply types_by_id_NoDup; [done|]. by rewrite <-Hperm.
  - destruct (types_by_id tys' !! k) as [ty|] eqn:Hk'; [|done].
    apply types_by_id_Some in Hk' as [Hin <-].
    rewrite <-Hperm in Hin.
    apply (types_by_id_NoDup _ _ Hnd) in Hin. congruence.
Qed.

(** X4: when the store returns several type definitions with one
    identifier, the artifacts of that type are built with the last of
    them: no definition after it in the returned sequence has the record's
    type identifier. *)
Theorem X4_last_definition_wins h (ids : list Z) artifacts :
  get_artifacts_by_ids h ids = Ok artifacts →
  Forall2
    (λ r t,
       ArtifactType.id (Artifact.artifact_type t) = MlmdArtifact.type_id r
       ∧ ∃ before after,
           (MetadataStore.get_artifacts_and_types_by_artifact_ids
              (store h) ids).2
           = (before ++ Artifact.artifact_type t :: after)%list
           ∧ Forall (λ ty, ArtifactType.id ty ≠ MlmdArtifact.type_id r) after)
    (MetadataStore.get_artifacts_and_types_by_artifact_ids (store h) ids).1
    artifacts.
Proof.
  intros [_ Hjoin]%get_artifacts_by_ids_Ok_inv.
  eapply Forall2_impl; [exact Hjoin|].
  intros r t (ty & Hty & ->). simpl. split.
  - by apply types_by_id_Some in Hty as [_ ?].
  - by apply types_by_id_last.
Qed.

Lemma X4_last_definition_wins_witness :
  ∃ artifacts,
    get_artifacts_by_ids store_two_names [1] = Ok artifacts
    ∧ (MlmdArtifact.type ∘ Artifact.mlmd_artifact) <$> artifacts = ["A_v2"]
    ∧ Forall2
        (λ r t,
           ArtifactType.id (Artifact.artifact_type t) = MlmdArtifact.type_id r
           ∧ ∃ before after,
               [type_A; type_B; type_A_renamed]
               = (before ++ Artifact.artifact_type t :: after)%list
               ∧ Forall (λ ty, ArtifactType.id ty ≠ MlmdArtifact.type_id r)
                        after)
        [record_A] artifacts.
Proof.
  eexists. split; [vm_compute; reflexivity|]. split; [reflexivity|].
  apply (X4_last_definition_wins store_two_names [1]). vm_compute. reflexivity.
Defined.

(** X5: the order in which the store returns the type definitions does not
    matter when their identifiers are pairwise distinct: two answers with
    the same records and the same definitions in another order give the
    same outcome, artifacts or exception. *)
Theorem X5_definition_order_irrelevant h h' (ids : list Z) :
  (MetadataStore.get_artifacts_and_types_by_artifact_ids (store h) ids).1
  = (MetadataStore.get_artifacts_and_types_by_artifact_ids (store h') ids).1 →
  (MetadataStore.get_artifacts_and_types_by_artifact_ids (store h) ids).2
  ≡ₚ (MetadataStore.get_artifacts_and_types_by_artifact_ids (store h') ids).2 →
  NoDup (ArtifactType.id <$>
           (MetadataStore.get_artifacts_and_types_by_artifact_ids
              (store h) ids).2) →
  get_artifacts_by_ids h ids = get_artifacts_by_ids h' ids.
Proof.
  unfold get_artifacts_by_ids.
  destruct (MetadataStore.get_artifacts_and_types_by_artifact_ids
              (store h) ids) as [records types].
  destruct (MetadataStore.get_artifacts_and_types_by_artifact_ids
              (store h') ids) as [records' types'].
  cbn [fst snd]. intros <- Hperm Hnd.
  by rewrite (types_by_id_perm _ _ Hperm Hnd).
Qed.

Lemma X5_definition_order_irrelevant_witness :
  get_artifacts_by_ids store_AB [1; 2] = get_artifacts_by_ids store_BA [1; 2].
Proof.
  apply (X5_definition_order_irrelevant store_AB store_BA [1; 2]).
  - reflexivity.
  - vm_compute. apply perm_swap.
  - vm_compute. apply NoDup_cons. split; [|apply NoDup_singleton].
    intros Hin%list_elem_of_singleton. discriminate Hin.
Defined.

(** ** What [update_artifacts] does to the store and to the heap *)

Lemma records_of_set_states s (refs : list loc) hp :
  records_of (set_states s refs hp) refs
  = MlmdArtifact.set_state s <$> records_of hp refs.
Proof.
  unfold records_of. rewrite <-list_fmap_compose.
  apply Forall_fmap_ext, Forall_forall. intros l Hin.
  rewrite set_states_lookup. by rewrite decide_True.
Qed.

Lemma loop_effect_idemp ns refs hp l :
  loop_effect ns refs (loop_effect ns refs hp) l = loop_effect ns refs hp l.
Proof.
  destruct (truthy ns) eqn:Ht.
  - destruct ns as [s|]; [|done].
    rewrite !loop_effect_truthy by done. rewrite !set_states_lookup.
    by destruct (decide (l ∈ refs)).
  - by rewrite !loop_effect_falsy.
Qed.

Lemma loop_effect_Forall_persisted ns refs hp (ls : list loc) :
  Forall (persisted hp) ls → Forall (persisted (loop_effect ns refs hp)) ls.
Proof.
  intros Hall. eapply Forall_impl; [exact Hall|].
  intros l Hl. by apply loop_effect_persisted.
Qed.

(** X6: one call of [update_artifacts] makes one [put_artifacts] call,
    with the records of the flattened sequence in its order and as they
    are after the loop, when that sequence is not empty and all its
    artifacts carry an identifier; in every other case it makes none. *)
Theorem X6_store_called_iff m ns w :
  (Forall (persisted (heap w)) (chain_values m) →
   chain_values m ≠ [] →
   put_artifacts_calls (update_artifacts m ns w).2
   = (put_artifacts_calls w
        ++ [records_of (heap (update_artifacts m ns w).2) (chain_values m)])%list)
  ∧ (¬ Forall (persisted (heap w)) (chain_values m) ∨ chain_values m = [] →
     put_artifacts_calls (update_artifacts m ns w).2 = put_artifacts_calls w).
Proof.
  destruct w as [hp calls]. cbn [heap put_artifacts_calls]. split.
  - intros Hall Hne.
    rewrite (update_artifacts_persisted m ns hp calls Hall).
    cbn [snd heap put_artifacts_calls].
    destruct (chain_values m); done.
  - intros Hwhy.
    destruct (update_artifacts_cases m ns hp calls)
      as [[Hall ->]|(pre & l0 & post & _ & _ & _ & ->)];
      cbn [snd put_artifacts_calls]; [|done].
    destruct Hwhy as [Hnot| ->]; [done|]. simpl. by rewrite app_nil_r.
Qed.

Lemma X6_store_called_iff_witness :
  put_artifacts_calls (update_artifacts map_ok None world_AB).2
  = [records_of heap_AB [1; 2; 1]%positive]
  ∧ put_artifacts_calls (update_artifacts map_bad None world_AB).2 = [].
Proof.
  destruct (X6_store_called_iff map_ok None world_AB) as [Hcalled _].
  destruct (X6_store_called_iff map_bad None world_AB) as [_ Hnot].
  split.
  - apply Hcalled; [exact map_ok_persisted|discriminate].
  - apply Hnot. left. intros Hall. vm_compute in Hall.
    apply Forall_cons in Hall as [_ Hall].
    apply Forall_cons in Hall as [[i Hi] _]. discriminate Hi.
Defined.

(** X7: whatever the multi-map and the outcome, no record without an
    identifier reaches the store: the write path updates and never
    creates. *)
Theorem X7_no_record_without_id m ns w :
  ∃ calls,
    put_artifacts_calls (update_artifacts m ns w).2
    = (put_artifacts_calls w ++ calls)%list
    ∧ Forall (Forall (λ r, is_Some (MlmdArtifact.id r))) calls.
Proof.
  destruct w as [hp calls]. cbn [heap put_artifacts_calls].
  destruct (update_artifacts_cases m ns hp calls)
    as [[Hall ->]|(pre & l0 & post & _ & _ & _ & ->)];
    cbn [snd put_artifacts_calls].
  - eexists. split; [done|]. apply batches_Forall.
    unfold records_of. apply Forall_fmap.
    by apply loop_effect_Forall_persisted.
  - exists []. by rewrite app_nil_r.
Qed.

(** X8: an object that the multi-map does not refer to is left exactly as
    it was, whatever the new state and the outcome. *)
Theorem X8_other_objects_untouched m ns w l :
  l ∉ chain_values m →
  heap (update_artifacts m ns w).2 l = heap w l.
Proof.
  intros Hout. destruct w as [hp calls]. cbn [heap].
  destruct (update_artifacts_cases m ns hp calls)
    as [[Hall ->]|(pre & l0 & post & Hsplit & _ & _ & ->)]; cbn [snd heap].
  - by apply loop_effect_outside.
  - apply loop_effect_outside. intros Hin. apply Hout.
    rewrite Hsplit. apply elem_of_app. by left.
Qed.

Lemma X8_other_objects_untouched_witness :
  heap (update_artifacts map_one (Some "PUBLISHED") world_AB).2 1%positive
  = heap world_AB 1%positive.
Proof.
  apply (X8_other_objects_untouched map_one (Some "PUBLISHED") world_AB).
  vm_compute. intros Hin%list_elem_of_singleton. discriminate Hin.
Defined.

(** X9: whether the call returns or raises, and whether the store is
    called, does not depend on the new state: only the identifiers of the
    artifacts decide. *)
Theorem X9_outcome_independent_of_state m ns ns' w :
  (update_artifacts m ns w).1 = (update_artifacts m ns' w).1
  ∧ length (put_artifacts_calls (update_artifacts m ns w).2)
    = length (put_artifacts_calls (update_artifacts m ns' w).2).
Proof.
  destruct w as [hp calls].
  destruct (decide (Forall (persisted hp) (chain_values m))) as [Hall|Hnot].
  - rewrite (update_artifacts_persisted m ns hp calls Hall).
    rewrite (update_artifacts_persisted m ns' hp calls Hall).
    cbn [fst snd put_artifacts_calls]. split; [done|].
    rewrite !length_app. f_equal. unfold records_of.
    by destruct (chain_values m).
  - destruct (first_unpersisted _ _ Hnot)
      as (pre & l0 & post & Hsplit & Hpre & Hl0).
    rewrite (update_artifacts_unpersisted m ns hp calls pre l0 post)
      by done.
    by rewrite (update_artifacts_unpersisted m ns' hp calls pre l0 post)
      by done.
Qed.

(** X10: repeating a call with the same arguments ends the same way and
    changes no object any further. *)
Theorem X10_second_run_changes_nothing m ns w :
  (update_artifacts m ns (update_artifacts m ns w).2).1
  = (update_artifacts m ns w).1
  ∧ ∀ l, heap (update_artifacts m ns (update_artifacts m ns w).2).2 l
         = heap (update_artifacts m ns w).2 l.
Proof.
  destruct w as [hp calls].
  destruct (update_artifacts_cases m ns hp calls)
    as [[Hall ->]|(pre & l0 & post & Hsplit & Hpre & Hl0 & ->)];
    cbn [fst snd].
  - rewrite update_artifacts_persisted
      by (by apply loop_effect_Forall_persisted).
    cbn [fst snd heap]. split; [done|]. intros l. apply loop_effect_idemp.
  - rewrite (update_artifacts_unpersisted m ns _ _ pre l0 post);
      [|done|by apply loop_effect_Forall_persisted
       |by rewrite loop_effect_persisted].
    cbn [fst snd heap]. split; [done|]. intros l. apply loop_effect_idemp.
Qed.

(** ** How calls compose *)

(** X11: two successive updates of the same artifacts with non-empty
    states: the second returns as well, the objects end as if only the
    second update had been made, and the store has received the records
    twice, first with the first state and then with the second. *)
Theorem X11_last_state_wins m s1 s2 w :
  s1 ≠ "" → s2 ≠ "" →
  Forall (persisted (heap w)) (chain_values m) →
  (update_artifacts m (Some s2) (update_artifacts m (Some s1) w).2).1 = Ok tt
  ∧ (∀ l,
       heap (update_artifacts m (Some s2)
               (update_artifacts m (Some s1) w).2).2 l
       = heap (update_artifacts m (Some s2) w).2 l)
  ∧ put_artifacts_calls
      (update_artifacts m (Some s2) (update_artifacts m (Some s1) w).2).2
    = (put_artifacts_calls w
         ++ batches (MlmdArtifact.set_state s1
                       <$> records_of (heap w) (chain_values m))
         ++ batches (MlmdArtifact.set_state s2
                       <$> records_of (heap w) (chain_values m)))%list.
Proof.
  intros Hs1%truthy_Some Hs2%truthy_Some Hall. destruct w as [hp calls].
  cbn [heap put_artifacts_calls] in *.
  rewrite (update_artifacts_persisted m (Some s1) hp calls Hall).
  rewrite (update_artifacts_persisted m (Some s2) hp calls Hall).
  cbn [fst snd].
  rewrite update_artifacts_persisted
    by (by apply loop_effect_Forall_persisted).
  cbn [fst snd heap put_artifacts_calls].
  rewrite !loop_effect_truthy by done.
  split; [done|]. split.
  - intros l. rewrite !set_states_lookup.
    by destruct (decide (l ∈ chain_values m)).
  - rewrite <-app_assoc. do 2 f_equal.
    + by rewrite records_of_set_states.
    + rewrite !records_of_set_states. f_equal.
      rewrite <-list_fmap_compose. by apply list_fmap_ext.
Qed.

Lemma X11_last_state_wins_witness :
  (update_artifacts map_ok (Some "DELETED")
     (update_artifacts map_ok (Some "PUBLISHED") world_AB).2).1 = Ok tt
  ∧ (∀ l,
       heap (update_artifacts map_ok (Some "DELETED")
               (update_artifacts map_ok (Some "PUBLISHED") world_AB).2).2 l
       = heap (update_artifacts map_ok (Some "DELETED") world_AB).2 l)
  ∧ put_artifacts_calls
      (update_artifacts map_ok (Some "DELETED")
         (update_artifacts map_ok (Some "PUBLISHED") world_AB).2).2
    = (put_artifacts_calls world_AB
         ++ batches (MlmdArtifact.set_state "PUBLISHED"
                       <$> records_of (heap world_AB) (chain_values map_ok))
         ++ batches (MlmdArtifact.set_state "DELETED"
                       <$> records_of (heap world_AB) (chain_values map_ok)))%list.
Proof.
  apply (X11_last_state_wins map_ok "PUBLISHED" "DELETED" world_AB).
  - discriminate.
  - discriminate.
  - exact map_ok_persisted.
Defined.

(** X12: artifacts read by [get_artifacts_by_ids] from a store that answers
    with one record per requested identifier can always be written back:
    [update_artifacts] on a multi-map of such artifacts returns, whatever
    the new state. *)
Theorem X12_fetched_artifacts_can_be_updated
    h (ids : list Z) artifacts m ns w :
  one_record_per_distinct_id h ids →
  get_artifacts_by_ids h ids = Ok artifacts →
  Forall (λ l, heap w l ∈ artifacts) (chain_values m) →
  (update_artifacts m ns w).1 = Ok tt.
Proof.
  intros Hone Hget Hfrom. destruct w as [hp calls]. cbn [heap] in Hfrom.
  rewrite update_artifacts_persisted; [done|].
  destruct (get_artifacts_by_ids_Ok_inv h ids artifacts Hget) as [_ Hjoin].
  apply joined_returned_ids in Hjoin.
  unfold one_record_per_distinct_id in Hone. rewrite <-Hjoin in Hone.
  eapply Forall_impl; [exact Hfrom|]. intros l Hin. unfold persisted.
  assert (MlmdArtifact.id (Artifact.mlmd_artifact (hp l))
          ∈ Some <$> remove_dups ids) as Hid.
  { rewrite <-Hone. unfold returned_ids.
    apply list_elem_of_fmap. by exists (hp l). }
  apply list_elem_of_fmap in Hid as (i & -> & _). by eexists.
Qed.

Lemma X12_fetched_artifacts_can_be_updated_witness :
  ∃ artifacts,
    get_artifacts_by_ids store_AB [1; 2] = Ok artifacts
    ∧ Forall (λ l, heap world_AB l ∈ artifacts) (chain_values map_ok)
    ∧ (update_artifacts map_ok (Some "PUBLISHED") world_AB).1 = Ok tt.
Proof.
  eexists. split; [vm_compute; reflexivity|].
  assert (Forall
            (λ l, heap world_AB l
                  ∈ [deserialize_artifact type_A
                       (MlmdArtifact.set_type "A" record_A);
                     deserialize_artifact type_B
                       (MlmdArtifact.set_type "B" record_B)])
            (chain_values map_ok)) as Hfrom.
  { vm_compute. repeat constructor. }
  split; [exact Hfrom|].
  apply (X12_fetched_artifacts_can_be_updated
           store_AB [1; 2]
           [deserialize_artifact type_A (MlmdArtifact.set_type "A" record_A);
            deserialize_artifact type_B (MlmdArtifact.set_type "B" record_B)]
           map_ok (Some "PUBLISHED") world_AB).
  - unfold one_record_per_distinct_id. vm_compute. reflexivity.
  - vm_compute. reflexivity.
  - exact Hfrom.
Defined.
